(** * kaggle_reader_slow: the record selection engine and the goal aggregator

    A shallow embedding of [src/kaggle_reader/kaggle_reader_slow.py].

    - Python values that flow through the module are text, integers and
      [None]; a record ([Dict[str, Any]]) is a finite map from field names to
      values, the keyword arguments of a query ([**kwargs]) are an
      insertion-ordered association list.
    - A Python function that may raise is a function into [outcome]; the
      exceptions are the ones the module can raise on these values.
    - Text is modelled by [string]: a sequence of characters with code points
      below 256, ordered by code point as Python orders [str]. *)

From Stdlib Require Import ZArith Ascii.
From stdpp Require Import base option list strings gmap.

Local Open Scope Z_scope.

(** ** Values and exceptions *)

Inductive value : Type :=
  | VNone
  | VStr (s : string)
  | VInt (n : Z).

Global Instance value_eq_dec : EqDecision value.
Proof. solve_decision. Defined.

(** The comparison functions of Python's [operator] module that a query may
    name. *)
Inductive comparator : Type := Lt | Le | Eq | Ne | Ge | Gt.

Global Instance comparator_eq_dec : EqDecision comparator.
Proof. solve_decision. Defined.

Inductive exn : Type :=
  | InvalidOperator                      (* Exception("Invalid Operator") *)
  | UnpackError (parts : list string)    (* ValueError: too many values to unpack (expected 2) *)
  | AttributeError (name : string)       (* getattr(operator, name) on an unknown name *)
  | OrderTypeError (op : comparator) (a b : value)
                                         (* TypeError: '<' not supported between instances ... *)
  | IntValueError (s : string)           (* ValueError: invalid literal for int() with base 10 *)
  | IntTypeError (v : value)             (* TypeError: int() argument must be a string ... *)
  | KeyError (k : string)
  | IndexError.                          (* pop from empty list *)

Global Instance exn_eq_dec : EqDecision exn.
Proof. solve_decision. Defined.

Inductive outcome (A : Type) : Type :=
  | Ok (a : A)
  | Raise (e : exn).
Global Arguments Ok {A} a.
Global Arguments Raise {A} e.

Global Instance outcome_ret : MRet outcome := @Ok.
Global Instance outcome_bind : MBind outcome := λ A B f m,
  match m with
  | Ok a => f a
  | Raise e => Raise e
  end.

Global Instance outcome_eq_dec `{EqDecision A} : EqDecision (outcome A).
Proof. solve_decision. Defined.

Definition returns {A} (m : outcome A) : Prop := ∃ a, m = Ok a.
Definition raises {A} (m : outcome A) : Prop := ∃ e, m = Raise e.

(** A record: [Dict[str, Any]]. *)
Abbreviation record := (gmap string value).

(** A compiled comparison: [Tuple[Callable, str, Any]]. *)
Abbreviation triple := (comparator * string * value)%type.

(** The keyword arguments of a call, in insertion order. *)
Abbreviation kwargs_t := (list (string * value)).

(** ** Python built-ins the module relies on *)

Module Py.

(** [s[:-1]] *)
Fixpoint drop_last (s : string) : string :=
  match s with
  | "" => ""
  | String c s' =>
      match s' with
      | "" => ""
      | String _ _ => String c (drop_last s')
      end
  end.

(** [sub in s] *)
Fixpoint contains (sub s : string) : bool :=
  String.prefix sub s ||
  match s with
  | "" => false
  | String _ s' => contains sub s'
  end.

(** [s.split(sep)] for a non-empty [sep]: the text is scanned from the left
    and cut at each occurrence of [sep], occurrences not overlapping.
    [skip] counts the characters of an occurrence that remain to be passed
    over, [cur] is the piece read so far. *)
Fixpoint split_go (sep : string) (skip : nat) (cur s : string) : list string :=
  match s with
  | "" => [cur]
  | String c s' =>
      match skip with
      | S n => split_go sep n cur s'
      | O =>
          if String.prefix sep s
          then cur :: split_go sep (pred (String.length sep)) "" s'
          else split_go sep O (cur +:+ String c "") s'
      end
  end.

Definition split (sep s : string) : list string := split_go sep O "" s.

(** [zip(xs, ys)]: stops at the shorter argument. *)
Fixpoint zip {A B} (xs : list A) (ys : list B) : list (A * B) :=
  match xs, ys with
  | x :: xs', y :: ys' => (x, y) :: zip xs' ys'
  | _, _ => []
  end.

(** [dict(pairs)]: pairs are inserted from the left, a later pair replaces
    an earlier one with the same key. *)
Definition dict (pairs : list (string * value)) : record :=
  foldl (λ d kv, <[kv.1 := kv.2]> d) ∅ pairs.

(** [d.get(k)]: the value, [None] when the key is absent. *)
Definition get (d : record) (k : string) : value :=
  match d !! k with
  | Some v => v
  | None => VNone
  end.

(** [d[k]] *)
Definition getitem (d : record) (k : string) : outcome value :=
  match d !! k with
  | Some v => Ok v
  | None => Raise (KeyError k)
  end.

(** [kwargs.pop(k, default)]: the value and the remaining entries. *)
Definition pop (k : string) (default : value) (kwargs : kwargs_t)
    : value * kwargs_t :=
  match list_find (λ kv, kv.1 = k) kwargs with
  | Some (_, (_, v)) => (v, filter (λ kv, kv.1 ≠ k) kwargs)
  | None => (default, kwargs)
  end.

(** [a == b] on values. *)
Definition eq (a b : value) : bool := bool_decide (a = b).

(** The six comparison functions of the [operator] module. Equality and
    inequality are defined between any two values; the order comparisons
    between two integers and between two texts, and raise [TypeError]
    otherwise. *)
Definition order (op : comparator) (c : comparison) : bool :=
  match op, c with
  | Lt, Datatypes.Lt => true
  | Le, (Datatypes.Lt | Datatypes.Eq) => true
  | Ge, (Datatypes.Gt | Datatypes.Eq) => true
  | Gt, Datatypes.Gt => true
  | _, _ => false
  end.

Definition apply (op : comparator) (a b : value) : outcome bool :=
  match op with
  | Eq => Ok (eq a b)
  | Ne => Ok (negb (eq a b))
  | Lt | Le | Ge | Gt =>
      match a, b with
      | VInt x, VInt y => Ok (order op (x ?= y))
      | VStr x, VStr y => Ok (order op (String.compare x y))
      | _, _ => Raise (OrderTypeError op a b)
      end
  end.

(** [getattr(operator, name)] on the names of the six comparisons. *)
Definition operator_getattr (name : string) : outcome comparator :=
  if decide (name = "lt") then Ok Lt
  else if decide (name = "le") then Ok Le
  else if decide (name = "eq") then Ok Eq
  else if decide (name = "ne") then Ok Ne
  else if decide (name = "ge") then Ok Ge
  else if decide (name = "gt") then Ok Gt
  else Raise (AttributeError name).

(** [int(v)] in base 10. An integer is returned as it is. A text is
    accepted when, once the white space on both sides is removed, it is an
    optional sign followed by decimal digits, single underscores allowed
    between digits. The interpreter's bound on the number of digits of a
    literal (4300 by default) is not modelled. *)
Definition is_space (c : ascii) : bool :=
  match c with
  | "009" | "010" | "011" | "012" | "013" | " " | "133" | "160" => true
  | _ => false
  end%char.

Definition digit (c : ascii) : option Z :=
  let n := Z.of_N (N_of_ascii c) in
  if bool_decide (48 ≤ n ≤ 57) then Some (n - 48) else None.

Fixpoint lstrip (s : string) : string :=
  match s with
  | "" => ""
  | String c s' => if is_space c then lstrip s' else s
  end.

Definition strip (s : string) : string :=
  String.rev (lstrip (String.rev (lstrip s))).

Fixpoint digits (acc : Z) (after_underscore : bool) (s : string) : option Z :=
  match s with
  | "" => if after_underscore then None else Some acc
  | String c s' =>
      if bool_decide (c = "_"%char)
      then if after_underscore then None else digits acc true s'
      else match digit c with
           | Some d => digits (10 * acc + d) false s'
           | None => None
           end
  end.

Definition unsigned (s : string) : option Z :=
  match s with
  | "" => None
  | String c _ => if bool_decide (c = "_"%char) then None else digits 0 false s
  end.

Definition int_of_string (s : string) : option Z :=
  match strip s with
  | String "+" s' => unsigned s'
  | String "-" s' => Z.opp <$> unsigned s'
  | s' => unsigned s'
  end.

Definition int (v : value) : outcome Z :=
  match v with
  | VInt n => Ok n
  | VStr s =>
      match int_of_string s with
      | Some n => Ok n
      | None => Raise (IntValueError s)
      end
  | VNone => Raise (IntTypeError v)
  end.

End Py.

(** ** The module *)

(** [op(el.get(k), v)]: the field of the record is the left operand, the
    target of the query the right one. *)
Definition compare_field (el : record) (t : triple) : outcome bool :=
  let '(op, k, v) := t in Py.apply op (Py.get el k) v.

(** [selector(el, mode, operators)]: every comparison is evaluated, in order,
    and folded into [result]; nothing is short-circuited. *)
Fixpoint selector_loop (el : record) (mode : value) (operators : list triple)
    (result : bool) : outcome bool :=
  match operators with
  | [] => Ok result
  | t :: operators' =>
      _result ← compare_field el t;
      selector_loop el mode operators'
        (if Py.eq mode (VStr "or") then _result || result else _result && result)
  end.

Definition selector (el : record) (mode : value) (operators : list triple)
    : outcome bool :=
  selector_loop el mode operators (if Py.eq mode (VStr "or") then false else true).

(** The names a query may use after the separator. *)
Definition valid_operators : list string := ["lt"; "le"; "eq"; "ne"; "ge"; "gt"].

(** The body of the loop of [operators_reader] for the entry [kw = v]. *)
Definition read_operator (kw : string) (v : value) : outcome triple :=
  '(_kw, op) ←
    (if Py.contains "__" kw
     then match Py.split "__" kw with
          | [_kw; op] =>
              if bool_decide (op ∈ valid_operators)
              then Ok (_kw, op)
              else Raise InvalidOperator
          | parts => Raise (UnpackError parts)
          end
     else Ok (kw, "eq"));
  _operator ← Py.operator_getattr op;
  Ok (_operator, _kw, v).

(** [operators_reader]: the entries of its keyword arguments are read in
    insertion order, [kwargs[kw]] being the value stored with [kw]. *)
Fixpoint operators_reader_loop (kwargs : kwargs_t) (operators : list triple)
    : outcome (list triple) :=
  match kwargs with
  | [] => Ok operators
  | (kw, v) :: kwargs' =>
      t ← read_operator kw v;
      operators_reader_loop kwargs' (operators ++ [t])
  end.

Definition operators_reader (kwargs : kwargs_t) : outcome (list triple) :=
  operators_reader_loop kwargs [].

(** The loop of [select] over the records. *)
Fixpoint select_loop (mode : value) (operators : list triple) (it : list record)
    (elements : list record) : outcome (list record) :=
  match it with
  | [] => Ok elements
  | el :: it' =>
      selector el mode operators ≫= λ b : bool,
      select_loop mode operators it' (if b then elements ++ [el] else elements)
  end.

(** [select(it, **kwargs)] *)
Definition select (it : list record) (kwargs : kwargs_t) : outcome (list record) :=
  let '(mode, kwargs) := Py.pop "mode" (VStr "or") kwargs in
  operators ← operators_reader kwargs;
  select_loop mode operators it [].

(** [row_splitter(row)] *)
Definition row_splitter (row : string) : list string :=
  Py.split "," (Py.drop_last row).

(** [generate_games], on the lines [csv_reader] has read from the file. *)
Definition generate_games (csv_gen : list string) : outcome (list record) :=
  match csv_gen with
  | [] => Raise IndexError
  | header :: csv_gen' =>
      let columns := row_splitter header in
      Ok (foldl
            (λ rows row,
               rows ++ [Py.dict (Py.zip columns (VStr <$> row_splitter row))])
            [] csv_gen')
  end.

(** [team_goals(game, team_name)] *)
Definition team_goals (game : record) (team_name : string) : outcome Z :=
  home_team ← Py.getitem game "home_team";
  if Py.eq home_team (VStr team_name)
  then home_score ← Py.getitem game "home_score"; Py.int home_score
  else away_score ← Py.getitem game "away_score"; Py.int away_score.

(** [sum_goals(games, team_name)]: [reduce] folds from the left, starting
    from 0. *)
Fixpoint reduce {A B} (f : B → A → outcome B) (xs : list A) (init : B) : outcome B :=
  match xs with
  | [] => Ok init
  | x :: xs' => acc ← f init x; reduce f xs' acc
  end.

Definition sum_goals (games : list record) (team_name : string) : outcome Z :=
  reduce (λ res game, g ← team_goals game team_name; Ok (res + g)) games 0.

(** ** Test data *)

Definition nl : string := String "010"%char "".

Definition italy_france : record :=
  {[ "home_team" := VStr "Italy"; "away_team" := VStr "France";
     "home_score" := VStr "2"; "away_score" := VStr "1" ]}.

Definition france_italy : record :=
  {[ "home_team" := VStr "France"; "away_team" := VStr "Italy";
     "home_score" := VStr "0"; "away_score" := VStr "3" ]}.

(** ** Notions used to state the properties *)

(** The outcomes of [f] on the elements of a list, from the left; the first
    exception ends the run. *)
Fixpoint collect {A B} (f : A → outcome B) (xs : list A) : outcome (list B) :=
  match xs with
  | [] => Ok []
  | x :: xs' => y ← f x; ys ← collect f xs'; Ok (y :: ys)
  end.



(** The score field [team_goals] reads when the home team is [home_team]. *)
Definition score_field (home_team : value) (team_name : string) : string :=
  if Py.eq home_team (VStr team_name) then "home_score" else "away_score".


(** The four order comparisons. *)
Definition ordering (op : comparator) : Prop := op ∈ [Lt; Le; Ge; Gt].

Definition germany_france : record :=
  {[ "home_team" := VStr "Germany"; "away_team" := VStr "France";
     "home_score" := VStr "1"; "away_score" := VStr "4" ]}.


(** ** The script *)

(** What the script writes on the standard output, line by line: a text, the
    integer of [print(sum_goals(...))], or the exception [print(ex)] shows. *)
Inductive printed : Type :=
  | PText (s : string)
  | PInt (n : Z)
  | PExn (e : exn).

(** The two queries of the script. *)
Definition tournament_query : kwargs_t :=
  [("tournament__eq", VStr "FIFA World Cup")].

Definition team_query (team : string) : kwargs_t :=
  [("mode", VStr "or"); ("home_team__eq", VStr team); ("away_team__eq", VStr team)].

(** The body of [if __name__ == '__main__'], on the lines of
    [csv/results.csv]: [generate_games] runs outside the [try], the two
    selections and the sum inside it, and [except Exception] catches every
    exception they raise. *)
Definition main (csv_gen : list string) : outcome (list printed) :=
  games_generator ← generate_games csv_gen;
  let team := "Italy" in
  let out := [PText "Italy games"] in
  match
    tournament ← select games_generator tournament_query;
    selected ← select tournament (team_query team);
    sum_goals selected team
  with
  | Ok n => Ok (out ++ [PInt n])
  | Raise ex => Ok (out ++ [PExn ex])
  end.

(** ** Further notions *)

(** [sep.join(pieces)] *)
Fixpoint join (sep : string) (pieces : list string) : string :=
  match pieces with
  | [] => ""
  | piece :: pieces' =>
      match pieces' with
      | [] => piece
      | _ :: _ => piece +:+ sep +:+ join sep pieces'
      end
  end.

(** The entry [kv] of a query compiles to the comparison [t]: the target is
    kept, and either the key has no separator and is the field of an
    equality, or the separator cuts it into the field and the name of the
    comparison. *)
Definition compiles_to (kv : string * value) (t : triple) : Prop :=
  t.2 = kv.2 ∧
  ((Py.contains "__" kv.1 = false ∧ t.1 = (Eq, kv.1)) ∨
   (∃ name, Py.split "__" kv.1 = [t.1.2; name] ∧ name ∈ valid_operators ∧
            Py.operator_getattr name = Ok t.1.1)).

(** The comparisons defined between any two values. *)
Definition equality (op : comparator) : Prop := op = Eq ∨ op = Ne.

(** The last character of a text, if any. *)
Fixpoint last_char (s : string) : option ascii :=
  match s with
  | "" => None
  | String c s' =>
      match s' with
      | "" => Some c
      | String _ _ => last_char s'
      end
  end.

(** The record of a data line under the columns of the header. *)
Definition row_record (columns : list string) (row : string) : record :=
  Py.dict (Py.zip columns (VStr <$> row_splitter row)).

(** A record that holds texts only. *)
Definition text_record (el : record) : Prop :=
  ∀ k v, el !! k = Some v → ∃ s, v = VStr s.

(** The matches of the World Cup in which the team plays. *)
Definition world_cup_game (team : string) (game : record) : Prop :=
  game !! "tournament" = Some (VStr "FIFA World Cup") ∧
  (game !! "home_team" = Some (VStr team) ∨ game !! "away_team" = Some (VStr team)).

Global Instance world_cup_game_dec team game : Decision (world_cup_game team game).
Proof. unfold world_cup_game. apply _. Defined.
Global Typeclasses Opaque world_cup_game.

(** ** The built-ins on examples *)

Example split_dunder_1 : Py.split "__" "home_team__eq" = ["home_team"; "eq"].
Proof. reflexivity. Qed.
Example split_dunder_2 : Py.split "__" "a___b" = ["a"; "_b"].
Proof. reflexivity. Qed.
Example split_dunder_3 : Py.split "__" "a__b__c" = ["a"; "b"; "c"].
Proof. reflexivity. Qed.
Example split_dunder_4 : Py.split "__" "a____" = ["a"; ""; ""].
Proof. reflexivity. Qed.
Example split_comma : Py.split "," "a,,b," = ["a"; ""; "b"; ""].
Proof. reflexivity. Qed.
Example split_empty : Py.split "," "" = [""].
Proof. reflexivity. Qed.
Example int_ex1 : Py.int (VStr " -1_000 ") = Ok (-1000).
Proof. reflexivity. Qed.
Example int_ex2 : Py.int (VStr "1__0") = Raise (IntValueError "1__0").
Proof. reflexivity. Qed.
Example int_ex3 : Py.int (VStr "") = Raise (IntValueError "").
Proof. reflexivity. Qed.
Example int_ex4 : Py.int (VStr "- 1") = Raise (IntValueError "- 1").
Proof. reflexivity. Qed.
Example int_ex5 : Py.int (VStr "007") = Ok 7.
Proof. reflexivity. Qed.

(** ** Loops as runs of their bodies *)

Section loops.
Context {A B : Type} (f : A → outcome B).

Lemma collect_app xs ys :
  collect f (xs ++ ys) =
  xs' ← collect f xs; ys' ← collect f ys; Ok (xs' ++ ys').
Proof.
  induction xs as [|x xs IH]; simpl.
  - by destruct (collect f ys).
  - destruct (f x); simpl; [|done]. rewrite IH.
    destruct (collect f xs); simpl; [|done]. by destruct (collect f ys).
Qed.

Lemma collect_returns xs :
  Forall (λ x, returns (f x)) xs ↔ returns (collect f xs).
Proof.
  induction xs as [|x xs IH]; simpl.
  - split; [by eexists | constructor].
  - rewrite Forall_cons, IH. unfold returns.
    destruct (f x) as [y|e]; simpl; [destruct (collect f xs) as [ys|e]; simpl|].
    + split; [by eexists | eauto].
    + split; [by intros [_ [? ?]] | by intros [? ?]].
    + split; [by intros [[? ?] _] | by intros [? ?]].
Qed.

Lemma collect_raises xs x :
  x ∈ xs → raises (f x) → raises (collect f xs).
Proof.
  intros Hx [e He]. induction xs as [|y xs IH]; [by inversion Hx|]. simpl.
  destruct (f y) eqn:Hy; simpl; [|by eexists].
  apply elem_of_cons in Hx as [->|Hx]; [congruence|].
  destruct (IH Hx) as [e' ->]. by eexists.
Qed.

(** The exception of a run is the one of the first element that raises. *)
Lemma collect_first_raise xs x ys e :
  Forall (λ x, returns (f x)) xs → f x = Raise e →
  collect f (xs ++ x :: ys) = Raise e.
Proof.
  intros Hxs He. rewrite collect_app.
  apply collect_returns in Hxs as [xs' ->]. simpl. by rewrite He.
Qed.

Lemma collect_raise_inv xs e :
  collect f xs = Raise e → ∃ x, x ∈ xs ∧ f x = Raise e.
Proof.
  induction xs as [|x xs IH]; simpl; [done|].
  destruct (f x) eqn:Hx; simpl.
  - destruct (collect f xs); simpl; [done|]. intros [= <-].
    destruct IH as (y & ? & ?); [done|]. exists y. split; [by right|done].
  - intros [= <-]. exists x. split; [by left|done].
Qed.

Lemma collect_lookup xs ys i x :
  collect f xs = Ok ys → xs !! i = Some x → ∃ y, f x = Ok y ∧ ys !! i = Some y.
Proof.
  revert ys i. induction xs as [|x' xs IH]; intros ys i; simpl; [done|].
  destruct (f x') eqn:Hx'; simpl; [|done].
  destruct (collect f xs) eqn:Hxs; simpl; [|done]. intros [= <-].
  destruct i as [|i]; simpl.
  - intros [= ->]. eauto.
  - intros Hi. by apply (IH _ i).
Qed.
End loops.

Lemma selector_loop_collect el mode operators result :
  selector_loop el mode operators result =
  bs ← collect (compare_field el) operators;
  Ok (if Py.eq mode (VStr "or")
      then existsb id bs || result else forallb id bs && result).
Proof.
  revert result. induction operators as [|t ops IH]; intros result; simpl.
  - by destruct (Py.eq _ _).
  - destruct (compare_field el t) as [b|]; simpl; [|done]. rewrite IH.
    destruct (collect _ ops) as [bs|]; simpl; [|done].
    f_equal. unfold id at 1 3. destruct (Py.eq _ _), b, result;
      simpl; rewrite ?orb_true_r, ?orb_false_r, ?andb_true_r, ?andb_false_r; done.
Qed.

Lemma selector_collect el mode operators :
  selector el mode operators =
  bs ← collect (compare_field el) operators;
  Ok (if Py.eq mode (VStr "or") then existsb id bs else forallb id bs).
Proof.
  unfold selector. rewrite selector_loop_collect.
  destruct (collect _ _); simpl; [|done].
  destruct (Py.eq _ _); by rewrite ?orb_false_r, ?andb_true_r.
Qed.

Lemma operators_reader_loop_collect kwargs operators :
  operators_reader_loop kwargs operators =
  ts ← collect (λ kv, read_operator kv.1 kv.2) kwargs; Ok (operators ++ ts).
Proof.
  revert operators.
  induction kwargs as [|[kw v] kwargs IH]; intros operators; simpl.
  - by rewrite app_nil_r.
  - destruct (read_operator kw v) as [t|]; simpl; [|done]. rewrite IH.
    destruct (collect _ kwargs); simpl; [|done]. by rewrite <-app_assoc.
Qed.

Lemma operators_reader_collect kwargs :
  operators_reader kwargs = collect (λ kv, read_operator kv.1 kv.2) kwargs.
Proof.
  unfold operators_reader. rewrite operators_reader_loop_collect.
  by destruct (collect _ _).
Qed.

Lemma select_loop_collect mode operators it elements :
  select_loop mode operators it elements =
  _ ← collect (λ el, selector el mode operators) it;
  Ok (elements ++ filter (λ el, selector el mode operators = Ok true) it).
Proof.
  revert elements. induction it as [|el it IH]; intros elements; simpl.
  - by rewrite app_nil_r.
  - rewrite filter_cons.
    destruct (selector el mode operators) as [b|] eqn:Hel; simpl; [|done].
    rewrite IH. destruct (collect _ it); simpl; [|done].
    destruct b; [rewrite decide_True by done | rewrite decide_False by done].
    + by rewrite <-app_assoc.
    + done.
Qed.


Lemma select_loop_or_nil (it : list record) :
  select_loop (VStr "or") [] it [] = Ok [].
Proof.
  rewrite select_loop_collect.
  assert (collect (λ el, selector el (VStr "or") []) it = Ok (const false <$> it))
    as ->.
  { induction it as [|el it IH]; simpl; [done|]. by rewrite IH. }
  simpl. f_equal. induction it as [|el it IH]; [done|].
  rewrite filter_cons. by rewrite decide_False.
Qed.

Lemma select_loop_and_nil (it : list record) mode :
  mode ≠ VStr "or" → select_loop mode [] it [] = Ok it.
Proof.
  intros Hmode. rewrite select_loop_collect.
  assert (Hsel : ∀ el : record, selector el mode [] = Ok true).
  { intros el. unfold selector, Py.eq. simpl. by rewrite bool_decide_eq_false_2. }
  assert (collect (λ el, selector el mode []) it = Ok (const true <$> it)) as ->.
  { induction it as [|el it IH]; [done|]. cbn [collect]. by rewrite Hsel, IH. }
  simpl. f_equal. induction it as [|el it IH]; [done|].
  rewrite filter_cons. rewrite decide_True by apply Hsel. by f_equal.
Qed.

(** ** The Selector *)

(** C1, as the code has it: with no comparison at all, the Selector keeps no
    record when the mode is ["or"], the mode of a query that names none, and
    keeps every record, unchanged and in order, when the mode is ["all"] or
    any other value than ["or"]. *)
Theorem select_no_triples (it : list record) :
  select it [("mode", VStr "or")] = Ok [] ∧
  select it [] = Ok [] ∧
  select it [("mode", VStr "all")] = Ok it ∧
  (∀ mode, mode ≠ VStr "or" →
     select it [("mode", mode)] = Ok it ∧ select_loop mode [] it [] = Ok it) ∧
  select_loop (VStr "or") [] it [] = Ok [].
Proof.
  split_and!.
  - unfold select. simpl. apply select_loop_or_nil.
  - apply select_loop_or_nil.
  - unfold select. simpl. by apply select_loop_and_nil.
  - intros mode Hmode. split; [|by apply select_loop_and_nil].
    unfold select. simpl. by apply select_loop_and_nil.
  - apply select_loop_or_nil.
Qed.

(** C1 as the specification words it fails: under the mode ["any"] and no
    comparison, a record is kept. *)
Lemma any_mode_keeps_records :
  select [italy_france] [("mode", VStr "any")] = Ok [italy_france] ∧
  select [italy_france] [("mode", VStr "any")] ≠ Ok [].
Proof. split; [by vm_compute | by vm_compute]. Qed.



(** C7: when no comparison raises, the loop of [select] returns exactly the records on
    which [selector] is true, in the order of the input; when one raises,
    the exception of the first such record is what [select] raises and no
    record is returned. *)
Theorem select_subsequence (it : list record) (mode : value)
    (operators : list triple) :
  match select_loop mode operators it [] with
  | Ok elements =>
      elements = filter (λ el, selector el mode operators = Ok true) it ∧
      elements `sublist_of` it ∧
      Forall (λ el, returns (selector el mode operators)) it
  | Raise e =>
      ∃ it1 el it2, it = it1 ++ el :: it2 ∧
        Forall (λ el, returns (selector el mode operators)) it1 ∧
        selector el mode operators = Raise e
  end.
Proof.
  rewrite select_loop_collect.
  destruct (collect _ it) as [bs|e] eqn:Hit; simpl.
  - split_and!; [done|apply sublist_filter|].
    apply collect_returns. by eexists.
  - clear -Hit. induction it as [|el it IH]; simpl in Hit; [done|].
    destruct (selector el mode operators) as [b|e'] eqn:Hel; simpl in Hit.
    + destruct (collect _ it); simpl in Hit; [done|]. injection Hit as ->.
      destruct IH as (it1 & el' & it2 & -> & ? & ?); [done|].
      exists (el :: it1), el', it2. split_and!; [done| |done].
      constructor; [by eexists|done].
    + injection Hit as ->. exists [], el, it. by split_and!.
Qed.

(** ** Texts and separators *)

Lemma append_cons c (s t : string) : String c s +:+ t = String c (s +:+ t).
Proof. reflexivity. Qed.

Lemma append_empty_r (s : string) : s +:+ "" = s.
Proof. induction s as [|c s IH]; [done|]. by rewrite append_cons, IH. Qed.

Lemma append_append (s t u : string) : (s +:+ t) +:+ u = s +:+ t +:+ u.
Proof. induction s as [|c s IH]; [done|]. by rewrite !append_cons, IH. Qed.

Lemma drop_last_snoc (s : string) c : Py.drop_last (s +:+ String c "") = s.
Proof.
  induction s as [|c' s IH]; [done|].
  rewrite append_cons. simpl. rewrite IH.
  destruct s; by rewrite ?append_cons.
Qed.

Lemma split_go_length sep skip cur s :
  (1 ≤ length (Py.split_go sep skip cur s))%nat.
Proof.
  revert skip cur. induction s as [|c s IH]; intros skip cur; [simpl; lia|].
  cbn [Py.split_go]. destruct skip; [|done].
  destruct (String.prefix sep (String c s)); [simpl; lia|done].
Qed.

(** Without an occurrence of the separator the text is the only piece. *)
Lemma split_go_no_separator sep cur s :
  Py.contains sep s = false → Py.split_go sep 0 cur s = [cur +:+ s].
Proof.
  revert cur. induction s as [|c s IH]; intros cur; simpl.
  - by rewrite append_empty_r.
  - intros [Hp Hc]%orb_false_iff.
    destruct sep as [|c' sep]; [done|]. simpl in Hp. rewrite Hp.
    by rewrite IH, append_append.
Qed.

Lemma split_no_separator sep s :
  Py.contains sep s = false → Py.split sep s = [s].
Proof. apply (split_go_no_separator sep ""). Qed.

(** With an occurrence of a non-empty separator there are at least two. *)
Lemma split_go_separator c sep cur s :
  Py.contains (String c sep) s = true →
  (2 ≤ length (Py.split_go (String c sep) 0 cur s))%nat.
Proof.
  revert cur. induction s as [|c' s IH]; intros cur; [done|].
  cbn [Py.contains Py.split_go].
  destruct (String.prefix (String c sep) (String c' s)); simpl.
  - intros _. pose proof (split_go_length (String c sep) (String.length sep) "" s).
    lia.
  - apply IH.
Qed.

Lemma split_separator c sep s :
  (length (Py.split (String c sep) s) = 1)%nat →
  Py.contains (String c sep) s = false.
Proof.
  intros Hlen. destruct (Py.contains _ s) eqn:Hc; [|done].
  apply (split_go_separator _ _ "") in Hc. unfold Py.split in Hlen. lia.
Qed.

(** ** The Predicate Compiler *)

Lemma operator_getattr_valid op :
  op ∈ valid_operators → returns (Py.operator_getattr op).
Proof.
  unfold valid_operators. rewrite !elem_of_cons, elem_of_nil.
  intros [->|[->|[->|[->|[->|[->|[]]]]]]]; by eexists.
Qed.

(** What [read_operator] does on a key, by the number of pieces the
    separator cuts it into. *)
Lemma read_operator_plain kw v :
  Py.contains "__" kw = false → read_operator kw v = Ok (Eq, kw, v).
Proof. intros Hc. unfold read_operator. by rewrite Hc. Qed.



Lemma pop_remaining k default (kwargs : kwargs_t) kv :
  kv ∈ kwargs → kv.1 ≠ k → kv ∈ (Py.pop k default kwargs).2.
Proof.
  intros Hin Hne. unfold Py.pop.
  destruct (list_find _ kwargs) as [[? [? ?]]|]; simpl; [|done].
  by apply list_elem_of_filter.
Qed.





(** C6: a key without separator compiles to the equality comparison on the
    field named by the whole key, whatever the other keys of the query. *)
Theorem plain_key_is_equality (kw : string) (v : value)
    (Hplain : Py.contains "__" kw = false) :
  read_operator kw v = Ok (Eq, kw, v) ∧
  operators_reader [(kw, v)] = Ok [(Eq, kw, v)] ∧
  ∀ (kwargs : kwargs_t) operators i,
    operators_reader kwargs = Ok operators → kwargs !! i = Some (kw, v) →
    operators !! i = Some (Eq, kw, v).
Proof.
  pose proof (read_operator_plain kw v Hplain) as Hkw. split_and!; [done| |].
  - unfold operators_reader. simpl. by rewrite Hkw.
  - intros kwargs operators i. rewrite operators_reader_collect. intros Hc Hi.
    destruct (collect_lookup _ _ _ _ _ Hc Hi) as (t & Ht & ?). simpl in Ht.
    congruence.
Qed.

Lemma plain_key_is_equality_witness :
  operators_reader [("tournament", VStr "FIFA World Cup")]
    = Ok [(Eq, "tournament", VStr "FIFA World Cup")].
Proof.
  by destruct (plain_key_is_equality "tournament" (VStr "FIFA World Cup") eq_refl)
    as (_ & H & _).
Defined.

(** ** The Record Source *)

(** C8: the line of the example, read against the header of the example,
    gives the record of the example; [row_splitter] removes the last
    character of the line, whatever it is, and cuts the rest at the commas. *)
Theorem parse_example :
  generate_games ["home_team,away_team,home_score,away_score" +:+ nl;
                  "Italy,France,2,1" +:+ nl]
    = Ok [ {[ "home_team" := VStr "Italy"; "away_team" := VStr "France";
              "home_score" := VStr "2"; "away_score" := VStr "1" ]} ] ∧
  row_splitter ("Italy,France,2,1" +:+ nl) = ["Italy"; "France"; "2"; "1"] ∧
  ∀ s c, row_splitter (s +:+ String c "") = Py.split "," s.
Proof.
  split_and!; [by vm_compute..|].
  intros s c. unfold row_splitter. by rewrite drop_last_snoc.
Qed.

(** ** Fields a record does not have *)

Lemma selector_raises el mode operators t :
  t ∈ operators → raises (compare_field el t) → raises (selector el mode operators).
Proof.
  intros Hin Ht. rewrite selector_collect.
  destruct (collect_raises (compare_field el) _ _ Hin Ht) as [e ->]. by eexists.
Qed.

(** C4, as the code has it: for a field the record does not have, the lookup
    does not raise and each of the six comparisons receives [None] on the
    left and the target on the right. Equality and inequality then return a
    boolean; the four order comparisons raise [TypeError], [None] being
    unordered against [None], a text or an integer, and [selector] raises
    with them under every mode. *)
Theorem missing_field_comparison (el : record) (k : string) (v : value)
    (Habsent : el !! k = None) :
  (∀ op, compare_field el (op, k, v) = Py.apply op VNone v) ∧
  compare_field el (Eq, k, v) = Ok (Py.eq VNone v) ∧
  compare_field el (Ne, k, v) = Ok (negb (Py.eq VNone v)) ∧
  (∀ mode, returns (selector el mode [(Eq, k, v)]) ∧
           returns (selector el mode [(Ne, k, v)])) ∧
  (∀ op, ordering op →
     compare_field el (op, k, v) = Raise (OrderTypeError op VNone v) ∧
     ∀ mode operators, (op, k, v) ∈ operators → raises (selector el mode operators)).
Proof.
  assert (Hget : Py.get el k = VNone) by (unfold Py.get; by rewrite Habsent).
  assert (Hop : ∀ op, compare_field el (op, k, v) = Py.apply op VNone v).
  { intros op. unfold compare_field. by rewrite Hget. }
  split_and!; [done|by rewrite Hop..| |].
  - intros mode. rewrite !selector_collect. cbn [collect]. rewrite !Hop. simpl.
    split; by eexists.
  - intros op Hord.
    assert (Hraise : compare_field el (op, k, v) = Raise (OrderTypeError op VNone v)).
    { rewrite Hop. unfold ordering in Hord.
      rewrite !elem_of_cons, elem_of_nil in Hord.
      by destruct Hord as [->|[->|[->|[->|[]]]]]. }
    split; [done|]. intros mode operators Hin.
    apply (selector_raises _ _ _ _ Hin). by eexists.
Qed.

Lemma missing_field_comparison_witness :
  compare_field italy_france (Eq, "tournament", VStr "FIFA World Cup") = Ok false ∧
  compare_field italy_france (Ne, "tournament", VStr "FIFA World Cup") = Ok true.
Proof.
  destruct (missing_field_comparison italy_france "tournament"
              (VStr "FIFA World Cup") eq_refl) as (_ & Heq & Hne & _).
  by rewrite Heq, Hne.
Defined.

(** C4 as the specification words it fails: an order comparison on a field
    the record does not have raises. *)
Lemma missing_field_order_raises :
  italy_france !! "tournament" = None ∧
  compare_field italy_france (Lt, "tournament", VStr "FIFA World Cup")
    = Raise (OrderTypeError Lt VNone (VStr "FIFA World Cup")) ∧
  selector italy_france (VStr "all") [(Lt, "tournament", VStr "FIFA World Cup")]
    = Raise (OrderTypeError Lt VNone (VStr "FIFA World Cup")).
Proof. split_and!; by vm_compute. Qed.

(** ** The Aggregator *)

Lemma reduce_app {A B} (f : B → A → outcome B) xs ys init :
  reduce f (xs ++ ys) init = acc ← reduce f xs init; reduce f ys acc.
Proof.
  revert init. induction xs as [|x xs IH]; intros init; simpl; [done|].
  destruct (f init x); simpl; [by rewrite IH|done].
Qed.

Lemma reduce_goals_collect games team_name init :
  reduce (λ res game, g ← team_goals game team_name; Ok (res + g)) games init =
  goals ← collect (λ game, team_goals game team_name) games;
  Ok (init + foldr Z.add 0 goals).
Proof.
  revert init. induction games as [|game games IH]; intros init; simpl.
  - by rewrite Z.add_0_r.
  - destruct (team_goals game team_name) as [g|]; simpl; [|done]. rewrite IH.
    destruct (collect _ games); simpl; [|done]. by rewrite Z.add_assoc.
Qed.

Lemma sum_goals_collect games team_name :
  sum_goals games team_name =
  goals ← collect (λ game, team_goals game team_name) games;
  Ok (foldr Z.add 0 goals).
Proof. unfold sum_goals. by rewrite reduce_goals_collect. Qed.

Lemma team_goals_score game team_name home :
  game !! "home_team" = Some home →
  team_goals game team_name =
  score ← Py.getitem game (score_field home team_name); Py.int score.
Proof.
  intros Hhome. unfold team_goals, score_field.
  assert (Py.getitem game "home_team" = Ok home) as ->.
  { unfold Py.getitem. by rewrite Hhome. }
  simpl. by destruct (Py.eq home _).
Qed.




(** C10: when the home team of a record is not the team asked for,
    [team_goals] reads and parses [away_score], whether or not the team is
    the away team; [sum_goals] therefore adds the away score of a record in
    which the team does not play. *)
Theorem away_score_by_default (game : record) (team_name : string) (home : value)
    (Hhome : game !! "home_team" = Some home)
    (Hdiff : home ≠ VStr team_name) :
  team_goals game team_name =
    (away_score ← Py.getitem game "away_score"; Py.int away_score) ∧
  ∀ away n, game !! "away_score" = Some away → Py.int away = Ok n →
    team_goals game team_name = Ok n ∧
    ∀ games total, sum_goals games team_name = Ok total →
      sum_goals (games ++ [game]) team_name = Ok (total + n).
Proof.
  assert (Hgoals : team_goals game team_name =
    (away_score ← Py.getitem game "away_score"; Py.int away_score)).
  { rewrite (team_goals_score _ _ _ Hhome). unfold score_field, Py.eq.
    by rewrite bool_decide_eq_false_2. }
  split; [done|]. intros away n Haway Hn.
  assert (Hgame : team_goals game team_name = Ok n).
  { rewrite Hgoals. unfold Py.getitem. by rewrite Haway. }
  split; [done|]. intros games total Hsum.
  unfold sum_goals in *. rewrite reduce_app, Hsum. simpl. by rewrite Hgame.
Qed.

Lemma away_score_by_default_witness :
  germany_france !! "away_team" = Some (VStr "France") ∧
  team_goals germany_france "Italy" = Ok 4 ∧
  sum_goals ([italy_france] ++ [germany_france]) "Italy" = Ok (2 + 4).
Proof.
  destruct (away_score_by_default germany_france "Italy" (VStr "Germany")
              eq_refl ltac:(done)) as [_ H].
  destruct (H (VStr "4") 4 eq_refl eq_refl) as [Hgame Hsum].
  split_and!; [reflexivity|done|]. by apply Hsum.
Defined.

(** C9: on the two records of the example, the query with mode ["or"] on
    both team fields keeps both records, and the goals of Italy over them
    are 2 + 3 = 5. *)
Theorem italy_goals :
  select [italy_france; france_italy]
    [("mode", VStr "or"); ("home_team__eq", VStr "Italy");
     ("away_team__eq", VStr "Italy")]
    = Ok [italy_france; france_italy] ∧
  sum_goals [italy_france; france_italy] "Italy" = Ok 5 ∧
  (games ← select [italy_france; france_italy]
             [("mode", VStr "or"); ("home_team__eq", VStr "Italy");
              ("away_team__eq", VStr "Italy")];
   sum_goals games "Italy") = Ok 5.
Proof. split_and!; by vm_compute. Qed.

(** ** More on the Predicate Compiler *)

Lemma collect_raise_split {A B} (f : A → outcome B) xs e :
  collect f xs = Raise e ↔
  ∃ xs1 x xs2, xs = xs1 ++ x :: xs2 ∧
    Forall (λ x, returns (f x)) xs1 ∧ f x = Raise e.
Proof.
  split.
  - induction xs as [|x xs IH]; simpl; [done|].
    destruct (f x) as [y|e'] eqn:Hx; simpl.
    + destruct (collect f xs); simpl; [done|]. intros [= ->].
      destruct IH as (xs1 & x' & xs2 & -> & ? & ?); [done|].
      exists (x :: xs1), x', xs2. split_and!; [done| |done].
      constructor; [by eexists|done].
    + intros [= ->]. exists [], x, xs. by split_and!.
  - intros (xs1 & x & xs2 & -> & Hxs1 & Hx). by apply collect_first_raise.
Qed.

Lemma collect_Forall2 {A B} (f : A → outcome B) xs ys :
  collect f xs = Ok ys ↔ Forall2 (λ x y, f x = Ok y) xs ys.
Proof.
  revert ys. induction xs as [|x xs IH]; intros ys; simpl.
  - split; [by intros [= <-]; constructor | by intros ->%Forall2_nil_inv_l].
  - split.
    + destruct (f x) as [y|] eqn:Hx; simpl; [|done].
      destruct (collect f xs) as [ys'|]; simpl; [|done]. intros [= <-].
      constructor; [done|by apply IH].
    + intros (y & ys' & Hy & Hys & ->)%Forall2_cons_inv_l.
      apply IH in Hys. by rewrite Hy, Hys.
Qed.

Lemma read_operator_compiles kw v t :
  read_operator kw v = Ok t ↔ compiles_to (kw, v) t.
Proof.
  destruct t as [[op field] v']. unfold compiles_to. simpl. split.
  - unfold read_operator. destruct (Py.contains "__" kw) eqn:Hc.
    + destruct (Py.split "__" kw) as [|f [|name [|??]]] eqn:Hs; try done.
      case_bool_decide as Hname; [|done]. simpl.
      destruct (Py.operator_getattr name) as [op'|] eqn:Hop; simpl; [|done].
      intros [= -> -> ->]. split; [done|]. right. by exists name.
    + simpl. intros [= <- <- <-]. split; [done|]. by left.
  - intros [-> [[Hc [= -> ->]]|(name & Hs & Hname & Hop)]].
    + by apply read_operator_plain.
    + unfold read_operator. destruct (Py.contains "__" kw) eqn:Hc.
      * rewrite Hs. rewrite bool_decide_eq_true_2 by done. simpl.
        by rewrite Hop.
      * apply split_no_separator in Hc. congruence.
Qed.

(** X1: [operators_reader] returns a list exactly when every entry compiles,
    and the list then has one comparison per entry, in the order of the
    entries, each with the target of its entry. *)
Theorem operators_reader_shape (kwargs : kwargs_t) (operators : list triple) :
  operators_reader kwargs = Ok operators ↔ Forall2 compiles_to kwargs operators.
Proof.
  rewrite operators_reader_collect, collect_Forall2.
  split; intros H; eapply Forall2_impl; [done| |done|];
    intros [kw v] t; by apply read_operator_compiles.
Qed.

(** X2: a key the separator cuts into more than two pieces makes the
    unpacking of [kw.split('__')] raise; [operators_reader] and [select]
    raise on every query that holds such a key. *)
Theorem split_unpack_raises (kw : string) (v : value)
    (Hparts : (2 < length (Py.split "__" kw))%nat) :
  read_operator kw v = Raise (UnpackError (Py.split "__" kw)) ∧
  ∀ kwargs : kwargs_t, (kw, v) ∈ kwargs →
    raises (operators_reader kwargs) ∧ ∀ it, raises (select it kwargs).
Proof.
  assert (Hkw : read_operator kw v = Raise (UnpackError (Py.split "__" kw))).
  { unfold read_operator. destruct (Py.contains "__" kw) eqn:Hc.
    - by destruct (Py.split "__" kw) as [|? [|? [|??]]]; simpl in *; try lia.
    - apply split_no_separator in Hc. rewrite Hc in Hparts. simpl in Hparts. lia. }
  split; [done|]. intros kwargs Hin.
  assert (Hraise : ∀ kwargs' : kwargs_t, (kw, v) ∈ kwargs' →
            raises (operators_reader kwargs')).
  { intros kwargs' Hin'. rewrite operators_reader_collect.
    apply (collect_raises _ _ (kw, v)); [done|]. by eexists. }
  split; [by apply Hraise|]. intros it. unfold select.
  assert (Hmode : (kw, v).1 ≠ "mode").
  { simpl. intros ->. vm_compute in Hparts. lia. }
  pose proof (pop_remaining "mode" (VStr "or") kwargs _ Hin Hmode) as Hin'.
  destruct (Py.pop _ _ kwargs) as [mode kwargs']. simpl in Hin'.
  destruct (Hraise _ Hin') as [e ->]. by eexists.
Qed.

Lemma split_unpack_raises_witness :
  read_operator "home__team__eq" (VStr "Italy")
    = Raise (UnpackError ["home"; "team"; "eq"]) ∧
  raises (select [italy_france] [("mode", VStr "all"); ("home__team__eq", VStr "Italy")]).
Proof.
  destruct (split_unpack_raises "home__team__eq" (VStr "Italy")) as [H1 H2].
  - vm_compute. lia.
  - split; [exact H1|].
    apply (H2 [("mode", VStr "all"); ("home__team__eq", VStr "Italy")]).
    by right; left.
Defined.

(** ** More on the Selector *)

(** X3: with exactly one comparison the mode plays no part: [selector]
    returns or raises what the comparison does. *)
Theorem selector_single (el : record) (mode : value) (t : triple) :
  selector el mode [t] = compare_field el t.
Proof.
  rewrite selector_collect. cbn [collect].
  destruct (compare_field el t) as [b|]; simpl; [|done].
  destruct (Py.eq mode _), b; done.
Qed.

(** X4: [selector] never stops early: it raises exactly when one of the
    comparisons raises, with the exception of the first that does, whatever
    the mode and whatever the comparisons before it returned. *)
Theorem selector_raise_first (el : record) (mode : value)
    (operators : list triple) (e : exn) :
  selector el mode operators = Raise e ↔
  ∃ operators1 t operators2, operators = operators1 ++ t :: operators2 ∧
    Forall (λ t, returns (compare_field el t)) operators1 ∧
    compare_field el t = Raise e.
Proof.
  rewrite <-collect_raise_split, selector_collect.
  destruct (collect _ operators); simpl; [done|split; congruence].
Qed.

Lemma compare_field_equality el op k v :
  equality op → returns (compare_field el (op, k, v)).
Proof. intros [-> | ->]; by eexists. Qed.

Lemma selector_equality el mode operators :
  Forall (λ t : triple, equality t.1.1) operators →
  returns (selector el mode operators).
Proof.
  intros Hops. rewrite selector_collect.
  assert (returns (collect (compare_field el) operators)) as [bs ->].
  { apply collect_returns. eapply Forall_impl; [done|].
    intros [[op k] v] ?. by apply compare_field_equality. }
  by eexists.
Qed.

Lemma select_loop_returns mode operators it :
  Forall (λ el, returns (selector el mode operators)) it →
  select_loop mode operators it [] =
  Ok (filter (λ el, selector el mode operators = Ok true) it).
Proof.
  intros Hit. rewrite select_loop_collect.
  by apply collect_returns in Hit as [bs ->].
Qed.

Lemma select_loop_Ok mode operators it elements :
  select_loop mode operators it [] = Ok elements ↔
  Forall (λ el, returns (selector el mode operators)) it ∧
  elements = filter (λ el, selector el mode operators = Ok true) it.
Proof.
  split.
  - rewrite select_loop_collect.
    destruct (collect _ it) as [bs|] eqn:Hc; simpl; [|done]. intros [= <-].
    split; [|done]. apply collect_returns. by eexists.
  - intros [Hit ->]. by apply select_loop_returns.
Qed.

(** X5: a query that uses equality and inequality only never raises on a
    record, whatever its fields; [select] then returns, and what it returns
    is the records on which [selector] is true. *)
Theorem equality_query_returns (operators : list triple) (mode : value)
    (Hops : Forall (λ t : triple, equality t.1.1) operators) :
  (∀ el, returns (selector el mode operators)) ∧
  ∀ it, select_loop mode operators it [] =
        Ok (filter (λ el, selector el mode operators = Ok true) it).
Proof.
  split; [intros el; by apply selector_equality|].
  intros it. apply select_loop_returns, Forall_forall. intros el _.
  by apply selector_equality.
Qed.

Lemma equality_query_returns_witness :
  select_loop (VStr "or") [(Eq, "home_team", VInt 3); (Ne, "tournament", VNone)]
    [italy_france; ∅] [] = Ok [].
Proof.
  destruct (equality_query_returns
    [(Eq, "home_team", VInt 3); (Ne, "tournament", VNone)] (VStr "or")) as [_ H].
  - apply Forall_cons; split; [by left|].
    apply Forall_cons; split; [by right|]. apply Forall_nil_2.
  - rewrite H. by vm_compute.
Defined.

(** X6: selecting again with the same query changes nothing. *)
Theorem select_idempotent (it elements : list record) (mode : value)
    (operators : list triple)
    (Hsel : select_loop mode operators it [] = Ok elements) :
  select_loop mode operators elements [] = Ok elements.
Proof.
  apply select_loop_Ok in Hsel as [Hit ->]. apply select_loop_Ok. split.
  - rewrite Forall_forall in *. intros el [_ ?]%list_elem_of_filter. auto.
  - induction it as [|el it IH]; [done|].
    apply Forall_cons in Hit as [_ Hit]. rewrite filter_cons.
    case_decide as Hel; [|by apply IH].
    rewrite filter_cons, decide_True by done. f_equal. by apply IH.
Qed.

Lemma select_idempotent_witness :
  select_loop (VStr "all") [(Eq, "home_team", VStr "Italy")] [italy_france] []
    = Ok [italy_france].
Proof.
  apply (select_idempotent [italy_france; france_italy]). by vm_compute.
Defined.

Lemma selector_and_app el mode operators1 operators2 b :
  mode ≠ VStr "or" →
  selector el mode (operators1 ++ operators2) = Ok b →
  ∃ b1 b2, selector el mode operators1 = Ok b1 ∧
           selector el mode operators2 = Ok b2 ∧ b = b1 && b2.
Proof.
  intros Hmode. rewrite !selector_collect, collect_app.
  unfold Py.eq. rewrite bool_decide_eq_false_2 by done.
  destruct (collect _ operators1) as [bs1|]; simpl; [|done].
  destruct (collect _ operators2) as [bs2|]; simpl; [|done].
  intros [= <-]. exists (forallb id bs1), (forallb id bs2).
  by rewrite forallb_app.
Qed.

(** X7: under a mode other than ["or"], whenever the selection by two lists
    of comparisons at once returns, selecting by the first list and then,
    among the records kept, by the second returns the same records. *)
Theorem select_chain (it elements : list record) (mode : value)
    (operators1 operators2 : list triple)
    (Hmode : mode ≠ VStr "or")
    (Hsel : select_loop mode (operators1 ++ operators2) it [] = Ok elements) :
  (it1 ← select_loop mode operators1 it [];
   select_loop mode operators2 it1 []) = Ok elements.
Proof.
  apply select_loop_Ok in Hsel as [Hit ->].
  assert (Hboth : ∀ el, el ∈ it → ∃ b1 b2,
    selector el mode operators1 = Ok b1 ∧ selector el mode operators2 = Ok b2 ∧
    selector el mode (operators1 ++ operators2) = Ok (b1 && b2)).
  { intros el Hel. rewrite Forall_forall in Hit. destruct (Hit el Hel) as [b Hb].
    destruct (selector_and_app _ _ _ _ _ Hmode Hb) as (b1 & b2 & ? & ? & ->).
    by exists b1, b2. }
  rewrite select_loop_returns; last first.
  { apply Forall_forall. intros el Hel.
    destruct (Hboth el Hel) as (b1 & ? & ? & _). by exists b1. }
  simpl. rewrite select_loop_returns; last first.
  { apply Forall_forall. intros el [_ Hel]%list_elem_of_filter.
    destruct (Hboth el Hel) as (? & b2 & _ & ? & _). by exists b2. }
  f_equal. clear Hit. induction it as [|el it IH]; [done|].
  destruct (Hboth el) as (b1 & b2 & H1 & H2 & H12); [by left|].
  rewrite !(filter_cons _ el), H1, H12.
  assert (IH' := IH (λ el' Hel', Hboth el' (list_elem_of_further _ _ _ Hel'))).
  destruct b1, b2; simpl;
    repeat first [ rewrite decide_True by done
                 | rewrite decide_False by done
                 | rewrite filter_cons, H2 ];
    by rewrite ?IH'.
Qed.

Lemma select_chain_witness :
  (it1 ← select_loop (VStr "and") [(Eq, "home_team", VStr "Italy")]
           [italy_france; france_italy] [];
   select_loop (VStr "and") [(Eq, "away_team", VStr "France")] it1 [])
  = Ok [italy_france].
Proof.
  apply (select_chain [italy_france; france_italy] [italy_france] (VStr "and")
           [(Eq, "home_team", VStr "Italy")] [(Eq, "away_team", VStr "France")]).
  - done.
  - by vm_compute.
Defined.



(** ** Cutting and joining texts *)

Lemma append_length (s t : string) :
  String.length (s +:+ t) = (String.length s + String.length t)%nat.
Proof. induction s as [|c s IH]; [done|]. rewrite append_cons. simpl. by rewrite IH. Qed.

Lemma prefix_append sep s :
  String.prefix sep s = true → ∃ t, s = sep +:+ t.
Proof.
  revert s. induction sep as [|c sep IH]; intros s; [by exists s|].
  destruct s as [|c' s]; simpl; [done|].
  destruct (ascii_dec c c') as [->|]; [|done].
  intros [t ->]%IH. by exists t.
Qed.

Lemma split_go_skip sep cur u t :
  Py.split_go sep (String.length u) cur (u +:+ t) = Py.split_go sep 0 cur t.
Proof. induction u as [|c u IH]; [done|]. by rewrite append_cons. Qed.

Lemma join_cons sep piece pieces :
  pieces ≠ [] → join sep (piece :: pieces) = piece +:+ sep +:+ join sep pieces.
Proof. by destruct pieces. Qed.

Lemma split_go_nonempty sep skip cur s : Py.split_go sep skip cur s ≠ [].
Proof.
  pose proof (split_go_length sep skip cur s) as Hlen.
  intros Hnil. rewrite Hnil in Hlen. simpl in Hlen. lia.
Qed.

Lemma join_split_go c sep cur s :
  join (String c sep) (Py.split_go (String c sep) 0 cur s) = cur +:+ s.
Proof.
  remember (String.length s) as n eqn:Hn. revert cur s Hn.
  induction n as [n IH] using lt_wf_ind. intros cur s Hn.
  destruct s as [|c' s]; [by rewrite append_empty_r|].
  cbn [Py.split_go].
  destruct (String.prefix (String c sep) (String c' s)) eqn:Hp.
  - apply prefix_append in Hp as [t Ht]. rewrite append_cons in Ht.
    injection Ht as -> ->. cbn [String.length Nat.pred].
    rewrite split_go_skip, join_cons by apply split_go_nonempty.
    rewrite (IH (String.length t)) by
      (try done; subst n; simpl; rewrite append_length; lia).
    by rewrite <-append_cons.
  - rewrite (IH (String.length s)) by (try done; subst n; simpl; lia).
    by rewrite append_append.
Qed.

Lemma contains_char_snoc c (s : string) c' :
  Py.contains (String c "") (s +:+ String c' "") =
  Py.contains (String c "") s || bool_decide (c = c').
Proof.
  induction s as [|d s IH].
  - simpl. destruct (ascii_dec c c');
      [by rewrite bool_decide_eq_true_2 | by rewrite bool_decide_eq_false_2].
  - rewrite append_cons. cbn [Py.contains]. rewrite IH. simpl.
    destruct (ascii_dec c d); [by destruct s|done].
Qed.

Lemma split_go_char_pieces c cur s :
  Py.contains (String c "") cur = false →
  Forall (λ piece, Py.contains (String c "") piece = false)
    (Py.split_go (String c "") 0 cur s).
Proof.
  revert cur. induction s as [|c' s IH]; intros cur Hcur; [by constructor|].
  cbn [Py.split_go]. simpl String.prefix.
  destruct (ascii_dec c c') as [->|Hne].
  - destruct s; (constructor; [done|]); by apply IH.
  - apply IH. rewrite contains_char_snoc, Hcur. simpl.
    by apply bool_decide_eq_false_2.
Qed.

(** X9: [row_splitter] loses the last character of the row and nothing
    else: the cells joined by commas are the row without its last
    character, and no cell holds a comma. *)
Theorem row_splitter_join (row : string) :
  join "," (row_splitter row) = Py.drop_last row ∧
  Forall (λ cell, Py.contains "," cell = false) (row_splitter row) ∧
  ∀ s c, join "," (row_splitter (s +:+ String c "")) = s.
Proof.
  unfold row_splitter, Py.split. split_and!.
  - apply (join_split_go _ _ "").
  - by apply split_go_char_pieces.
  - intros s c. rewrite drop_last_snoc. apply (join_split_go _ _ "").
Qed.

(** X10: a key is given back by joining with the separator the pieces
    [operators_reader] cuts it into. *)
Theorem key_split_join (kw : string) :
  join "__" (Py.split "__" kw) = kw.
Proof. apply (join_split_go _ _ ""). Qed.

Lemma last_char_cons c (s : string) :
  last_char (String c s) = match s with "" => Some c | _ => last_char s end.
Proof. by destruct s. Qed.

Lemma prefix_cons c sep c' s :
  String.prefix (String c sep) (String c' s) =
  if ascii_dec c c' then String.prefix sep s else false.
Proof. reflexivity. Qed.

(** The first cut falls right after a field that has no separator inside and
    does not end with an underscore. *)
Lemma split_go_field field cur rest :
  Py.contains "__" field = false → last_char field ≠ Some "_"%char →
  Py.split_go "__" 0 cur (field +:+ "__" +:+ rest) =
  (cur +:+ field) :: Py.split_go "__" 0 "" rest.
Proof.
  revert cur. induction field as [|c field IH]; intros cur Hc Hlast.
  - rewrite append_empty_r. by destruct rest.
  - rewrite append_cons. cbn [Py.split_go].
    cbn [Py.contains] in Hc. apply orb_false_iff in Hc as [Hp Hc].
    rewrite last_char_cons in Hlast.
    assert (String.prefix "__" (String c (field +:+ "__" +:+ rest)) = false) as ->.
    { destruct field as [|c2 field].
      - change ("" +:+ "__" +:+ rest) with (String "_" (String "_" rest)).
        rewrite prefix_cons.
        destruct (ascii_dec "_" c) as [<-|]; [by destruct Hlast|done].
      - rewrite append_cons, !prefix_cons. rewrite !prefix_cons in Hp.
        destruct (ascii_dec "_" c); [|done].
        destruct (ascii_dec "_" c2); [|done]. by destruct field. }
    rewrite IH, append_append; [done|done|]. by destruct field.
Qed.

Lemma split_field_name field name :
  Py.contains "__" field = false → last_char field ≠ Some "_"%char →
  Py.contains "__" name = false →
  Py.split "__" (field +:+ "__" +:+ name) = [field; name].
Proof.
  intros Hf Hl Hn. unfold Py.split. rewrite split_go_field by done.
  by rewrite split_go_no_separator.
Qed.

Lemma valid_operator_plain name :
  name ∈ valid_operators → Py.contains "__" name = false.
Proof.
  unfold valid_operators. rewrite !elem_of_cons, elem_of_nil.
  by intros [->|[->|[->|[->|[->|[->|[]]]]]]].
Qed.

(** X11: the key made of a field, the separator and one of the six names
    compiles to the comparison of that name on that field, provided the
    field has no separator inside and does not end with an underscore. *)
Theorem field_operator_key (field name : string) (v : value)
    (Hfield : Py.contains "__" field = false)
    (Hlast : last_char field ≠ Some "_"%char)
    (Hname : name ∈ valid_operators) :
  ∃ op, Py.operator_getattr name = Ok op ∧
        read_operator (field +:+ "__" +:+ name) v = Ok (op, field, v) ∧
        operators_reader [(field +:+ "__" +:+ name, v)] = Ok [(op, field, v)].
Proof.
  destruct (operator_getattr_valid _ Hname) as [op Hop]. exists op.
  assert (Hkw : read_operator (field +:+ "__" +:+ name) v = Ok (op, field, v)).
  { apply read_operator_compiles. split; [done|]. right. exists name.
    split_and!; [|done..]. simpl.
    by apply split_field_name; [..|apply valid_operator_plain]. }
  split_and!; [done..|]. unfold operators_reader. simpl. by rewrite Hkw.
Qed.

Lemma field_operator_key_witness :
  read_operator "home_score__ge" (VStr "2") = Ok (Ge, "home_score", VStr "2").
Proof.
  destruct (field_operator_key "home_score" "ge" (VStr "2")) as (op & Hop & H & _).
  - reflexivity.
  - simpl. congruence.
  - compute_done.
  - vm_compute in Hop. injection Hop as <-. exact H.
Defined.



(** ** More on the Record Source *)

Lemma dict_snoc ps (p : string * value) :
  Py.dict (ps ++ [p]) = <[p.1 := p.2]> (Py.dict ps).
Proof. unfold Py.dict. by rewrite foldl_app. Qed.

Lemma dict_lookup_elem ps k v : Py.dict ps !! k = Some v → (k, v) ∈ ps.
Proof.
  induction ps as [|[k' v'] ps IH] using rev_ind; [done|].
  rewrite dict_snoc, lookup_insert. simpl. case_decide as Hk.
  - intros [= ->]. subst. apply elem_of_app. right. by left.
  - intros ?. apply elem_of_app. left. by apply IH.
Qed.

Lemma dict_lookup_NoDup ps k v :
  NoDup ps.*1 → Py.dict ps !! k = Some v ↔ (k, v) ∈ ps.
Proof.
  intros Hnd. split; [apply dict_lookup_elem|].
  induction ps as [|[k' v'] ps IH] using rev_ind; [by intros ?%elem_of_nil|].
  rewrite fmap_app in Hnd. apply NoDup_app in Hnd as (Hnd & Hk' & _).
  rewrite dict_snoc, lookup_insert. simpl.
  intros [Hin|Hin]%elem_of_app.
  - case_decide as Hk; [|by apply IH]. subst.
    destruct (Hk' k); [|by left].
    apply list_elem_of_fmap. by exists (k, v).
  - apply list_elem_of_singleton in Hin as [= -> ->]. by rewrite decide_True.
Qed.

Lemma zip_elem_of {A B} (xs : list A) (ys : list B) x y :
  (x, y) ∈ Py.zip xs ys ↔ ∃ i, xs !! i = Some x ∧ ys !! i = Some y.
Proof.
  revert ys. induction xs as [|x' xs IH]; intros [|y' ys]; simpl.
  - rewrite elem_of_nil. split; [done|]. by intros (? & ? & ?).
  - rewrite elem_of_nil. split; [done|]. by intros (? & ? & ?).
  - rewrite elem_of_nil. split; [done|]. by intros (? & ? & ?).
  - rewrite elem_of_cons, IH. split.
    + intros [[= -> ->]|(i & ? & ?)]; [by exists 0%nat|by exists (S i)].
    + intros ([|i] & Hx & Hy); simpl in *; [left; congruence|right; eauto].
Qed.

Lemma zip_fst_sublist {A B} (xs : list A) (ys : list B) :
  (Py.zip xs ys).*1 `sublist_of` xs.
Proof.
  revert ys. induction xs as [|x xs IH]; intros [|y ys]; simpl.
  - done.
  - done.
  - apply sublist_nil_l.
  - by apply sublist_skip.
Qed.

Lemma games_fold columns rows acc :
  foldl (λ rows row,
           rows ++ [Py.dict (Py.zip columns (VStr <$> row_splitter row))])
        acc rows = acc ++ (row_record columns <$> rows).
Proof.
  revert acc. induction rows as [|row rows IH]; intros acc; simpl.
  - by rewrite app_nil_r.
  - by rewrite IH, <-app_assoc.
Qed.

Lemma generate_games_rows header rows :
  generate_games (header :: rows) =
  Ok (row_record (row_splitter header) <$> rows).
Proof. unfold generate_games. by rewrite games_fold. Qed.

(** X13: [generate_games] raises on a file without any line, and only then;
    otherwise the first line gives the columns and every other line gives
    one record, in the order of the lines: a file with a header alone gives
    no record. *)
Theorem generate_games_records :
  (∀ csv_gen, generate_games csv_gen = Raise IndexError ↔ csv_gen = []) ∧
  ∀ header rows,
    generate_games (header :: rows)
      = Ok (row_record (row_splitter header) <$> rows) ∧
    ∀ games, generate_games (header :: rows) = Ok games →
             length games = length rows.
Proof.
  split.
  - intros [|header rows]; [done|]. by rewrite generate_games_rows.
  - intros header rows. rewrite generate_games_rows. split; [done|].
    intros games [= <-]. by rewrite length_fmap.
Qed.

(** X14: under a header whose columns are all different, a record has the
    field [k] with value [v] exactly when [k] is a column and [v] is the
    text of the cell of the line at the position of that column. A line
    with fewer cells than columns gives a record without the last fields,
    the cells past the last column are dropped. *)
Theorem row_record_lookup (columns : list string) (row : string)
    (k : string) (v : value)
    (Hcolumns : NoDup columns) :
  row_record columns row !! k = Some v ↔
  ∃ i cell, columns !! i = Some k ∧ row_splitter row !! i = Some cell ∧
            v = VStr cell.
Proof.
  unfold row_record. rewrite dict_lookup_NoDup, zip_elem_of.
  - split.
    + intros (i & Hk & Hv). rewrite list_lookup_fmap in Hv.
      destruct (row_splitter row !! i) as [cell|] eqn:Hcell; [|done].
      injection Hv as <-. by exists i, cell.
    + intros (i & cell & Hk & Hcell & ->). exists i.
      by rewrite list_lookup_fmap, Hcell.
  - apply (sublist_NoDup _ columns Hcolumns), zip_fst_sublist.
Qed.

Lemma row_record_lookup_witness :
  row_record ["home_team"; "away_team"; "home_score"] ("Italy,France" +:+ nl)
    !! "away_team" = Some (VStr "France").
Proof.
  apply row_record_lookup.
  - compute_done.
  - by exists 1%nat, "France".
Defined.

Lemma row_record_text columns row : text_record (row_record columns row).
Proof.
  intros k v [i [_ Hv]]%dict_lookup_elem%zip_elem_of.
  rewrite list_lookup_fmap in Hv.
  destruct (row_splitter row !! i) as [cell|]; [|done].
  injection Hv as <-. by exists cell.
Qed.

Lemma generate_games_Forall_text csv_gen games :
  generate_games csv_gen = Ok games → Forall text_record games.
Proof.
  destruct csv_gen as [|header rows]; [done|].
  rewrite generate_games_rows. intros [= <-].
  apply Forall_fmap, Forall_forall. intros row _. apply row_record_text.
Qed.

(** X15: whatever the header and the lines, the records of
    [generate_games] hold texts only, under names of columns only. *)
Theorem generate_games_text (csv_gen : list string) (games : list record)
    (Hgames : generate_games csv_gen = Ok games) :
  Forall text_record games ∧
  ∀ header rows, csv_gen = header :: rows →
    Forall (λ game : record, ∀ k, is_Some (game !! k) → k ∈ row_splitter header)
      games.
Proof.
  destruct csv_gen as [|header rows]; [done|].
  rewrite generate_games_rows in Hgames. injection Hgames as <-. split.
  - apply Forall_fmap, Forall_forall. intros row _. apply row_record_text.
  - intros ? ? [= <- <-]. apply Forall_fmap, Forall_forall.
    intros row _ k [v [i [Hk _]]%dict_lookup_elem%zip_elem_of].
    by eapply list_elem_of_lookup_2.
Qed.

Lemma generate_games_text_witness :
  Forall text_record [italy_france].
Proof.
  apply (generate_games_text
           ["home_team,away_team,home_score,away_score" +:+ nl;
            "Italy,France,2,1" +:+ nl]).
  by vm_compute.
Defined.

Lemma text_record_order_raises (el : record) op k n :
  text_record el → ordering op →
  compare_field el (op, k, VInt n)
    = Raise (OrderTypeError op (Py.get el k) (VInt n)) ∧
  compare_field el (Eq, k, VInt n) = Ok false.
Proof.
  intros Htext Hop. unfold compare_field, Py.get.
  destruct (el !! k) as [v|] eqn:Hk.
  - destruct (Htext k v Hk) as [s ->]. split; [|done].
    unfold ordering in Hop. rewrite !elem_of_cons, elem_of_nil in Hop.
    by destruct Hop as [->|[->|[->|[->|[]]]]].
  - split; [|done].
    unfold ordering in Hop. rewrite !elem_of_cons, elem_of_nil in Hop.
    by destruct Hop as [->|[->|[->|[->|[]]]]].
Qed.

(** X16: the records of [generate_games] hold texts, so an order comparison
    with an integer target raises on each of them, and [select] raises as
    soon as there is a record; an equality with an integer target is false
    on each of them. *)
Theorem order_integer_target (csv_gen : list string) (games : list record)
    (op : comparator) (k : string) (n : Z)
    (Hgames : generate_games csv_gen = Ok games)
    (Hop : ordering op) :
  Forall (λ game,
            raises (compare_field game (op, k, VInt n)) ∧
            compare_field game (Eq, k, VInt n) = Ok false) games ∧
  ∀ mode operators, games ≠ [] → (op, k, VInt n) ∈ operators →
    raises (select_loop mode operators games []).
Proof.
  pose proof (generate_games_Forall_text _ _ Hgames) as Htext.
  assert (Hall : Forall (λ game,
            raises (compare_field game (op, k, VInt n)) ∧
            compare_field game (Eq, k, VInt n) = Ok false) games).
  { eapply Forall_impl; [done|]. intros game Hgame.
    destruct (text_record_order_raises game op k n Hgame Hop) as [H1 H2].
    split; [by eexists|done]. }
  split; [done|]. intros mode operators Hne Hin.
  destruct games as [|game games]; [done|].
  apply Forall_cons in Hall as [[Hraise _] _].
  rewrite select_loop_collect. cbn [collect].
  destruct (selector_raises game mode operators _ Hin Hraise) as [e ->].
  by eexists.
Qed.

Lemma order_integer_target_witness :
  raises (select_loop (VStr "all") [(Ge, "home_score", VInt 1)] [italy_france] []).
Proof.
  destruct (order_integer_target
    ["home_team,away_team,home_score,away_score" +:+ nl; "Italy,France,2,1" +:+ nl]
    [italy_france] Ge "home_score" 1) as [_ H].
  - by vm_compute.
  - compute_done.
  - apply H; [done|by left].
Defined.

(** ** More on the Aggregator *)

Lemma team_goals_raise_cases (game : record) (team_name : string) (e : exn) :
  team_goals game team_name = Raise e ↔
  (game !! "home_team" = None ∧ e = KeyError "home_team") ∨
  ∃ home, game !! "home_team" = Some home ∧
    ((game !! score_field home team_name = None ∧
      e = KeyError (score_field home team_name)) ∨
     (∃ score, game !! score_field home team_name = Some score ∧
               Py.int score = Raise e)).
Proof.
  destruct (game !! "home_team") as [home|] eqn:Hhome.
  - rewrite (team_goals_score _ _ _ Hhome). unfold Py.getitem.
    destruct (game !! score_field home team_name) as [score|] eqn:Hscore; simpl.
    + split.
      * intros He. right. exists home. split; [done|]. right. by exists score.
      * intros [[? _]|(home' & [= <-] & [[Hnone _]|(score' & Hsome & ?)])];
          [done|congruence..].
    + split.
      * intros [= <-]. right. exists home. split; [done|]. by left.
      * intros [[? _]|(home' & [= <-] & [[_ ->]|(score' & Hsome & _)])];
          [done|done|congruence].
  - unfold team_goals, Py.getitem. rewrite Hhome. simpl. split.
    + intros [= <-]. by left.
    + intros [[_ ->]|(? & ? & _)]; done.
Qed.

(** X17: [team_goals] raises in three cases only: the record has no
    [home_team], it has no score field for the side it reads, or [int]
    refuses the value of that field; the exception tells which. *)
Theorem team_goals_raise (game : record) (team_name : string) (e : exn) :
  team_goals game team_name = Raise e ↔
  (game !! "home_team" = None ∧ e = KeyError "home_team") ∨
  ∃ home, game !! "home_team" = Some home ∧
    ((game !! score_field home team_name = None ∧
      e = KeyError (score_field home team_name)) ∨
     (∃ score, game !! score_field home team_name = Some score ∧
               Py.int score = Raise e)).
Proof. apply team_goals_raise_cases. Qed.

(** X18: the goals over two sequences one after the other are the sum of
    the goals over each, and an exception of the first sequence comes
    before any of the second. *)
Theorem sum_goals_app (games1 games2 : list record) (team_name : string) :
  sum_goals (games1 ++ games2) team_name =
  (goals1 ← sum_goals games1 team_name;
   goals2 ← sum_goals games2 team_name;
   Ok (goals1 + goals2)).
Proof.
  rewrite !sum_goals_collect, collect_app.
  destruct (collect _ games1) as [gs1|]; simpl; [|done].
  destruct (collect _ games2) as [gs2|]; simpl; [|done].
  f_equal. induction gs1 as [|g gs1 IH]; simpl; [done|]. rewrite IH. lia.
Qed.

Lemma collect_permutation {A B} (f : A → outcome B) xs xs' ys :
  xs ≡ₚ xs' → collect f xs = Ok ys → ∃ ys', collect f xs' = Ok ys' ∧ ys ≡ₚ ys'.
Proof.
  intros Hperm. revert ys.
  induction Hperm as [|x xs xs' _ IH|x y xs|xs xs' xs'' _ IH1 _ IH2];
    intros ys; simpl.
  - intros [= <-]. by exists [].
  - destruct (f x) as [z|]; simpl; [|done].
    destruct (collect f xs) as [zs|]; simpl; [|done]. intros [= <-].
    destruct (IH zs eq_refl) as (zs' & -> & ?). exists (z :: zs').
    split; [done|by constructor].
  - destruct (f y) as [b|]; simpl; [|done].
    destruct (f x) as [a|]; simpl; [|done].
    destruct (collect f xs) as [zs|]; simpl; [|done]. intros [= <-].
    exists (a :: b :: zs). split; [done|by constructor].
  - intros Hys. destruct (IH1 _ Hys) as (ys' & Hys' & ?).
    destruct (IH2 _ Hys') as (ys'' & ? & ?). exists ys''.
    split; [done|by etrans].
Qed.

(** X19: when [sum_goals] returns, the order of the records does not
    matter: it returns the same number on every rearrangement of them. *)
Theorem sum_goals_permutation (games games' : list record) (team_name : string)
    (goals : Z)
    (Hperm : games ≡ₚ games')
    (Hsum : sum_goals games team_name = Ok goals) :
  sum_goals games' team_name = Ok goals.
Proof.
  rewrite sum_goals_collect in *.
  destruct (collect _ games) as [gs|] eqn:Hgs; simpl in Hsum; [|done].
  injection Hsum as <-.
  destruct (collect_permutation _ _ _ _ Hperm Hgs) as (gs' & -> & Hgs').
  simpl. f_equal. clear -Hgs'.
  induction Hgs' as [|g gs gs' _ IH|g1 g2 gs|gs gs' gs'' _ IH1 _ IH2]; simpl;
    [done|by rewrite IH|lia|by etrans].
Qed.

Lemma sum_goals_permutation_witness :
  sum_goals [france_italy; italy_france] "Italy" = Ok 5.
Proof.
  apply (sum_goals_permutation [italy_france; france_italy]).
  - apply Permutation_swap.
  - by vm_compute.
Defined.

(** ** The script *)

Lemma bind_Ok {A B} (a : A) (f : A → outcome B) : Ok a ≫= f = f a.
Proof. reflexivity. Qed.

Lemma selector_eq_text (el : record) mode k s :
  selector el mode [(Eq, k, VStr s)] = Ok (bool_decide (el !! k = Some (VStr s))).
Proof.
  rewrite selector_collect. cbn [collect]. unfold compare_field, Py.get. simpl.
  assert (Py.eq match el !! k with Some v => v | None => VNone end (VStr s)
          = bool_decide (el !! k = Some (VStr s))) as ->.
  { unfold Py.eq. apply bool_decide_ext.
    destruct (el !! k); split; congruence. }
  simpl. by destruct (Py.eq mode _), (bool_decide _).
Qed.

Lemma selector_or_team (el : record) team :
  selector el (VStr "or")
    [(Eq, "home_team", VStr team); (Eq, "away_team", VStr team)]
  = Ok (bool_decide (el !! "home_team" = Some (VStr team) ∨
                     el !! "away_team" = Some (VStr team))).
Proof.
  rewrite selector_collect. cbn [collect]. unfold compare_field, Py.get. simpl.
  f_equal. unfold Py.eq. rewrite orb_false_r.
  destruct (el !! "home_team") as [h|], (el !! "away_team") as [a|];
    repeat case_bool_decide; simpl; try done;
    try (by exfalso; intuition congruence).
Qed.

Lemma select_tournament (it : list record) :
  select it tournament_query =
  Ok (filter (λ el, el !! "tournament" = Some (VStr "FIFA World Cup")) it).
Proof.
  change (select it tournament_query) with
    (select_loop (VStr "or") [(Eq, "tournament", VStr "FIFA World Cup")] it []).
  rewrite select_loop_returns.
  - f_equal. apply list_filter_iff. intros el. rewrite selector_eq_text.
    split; [by intros [= ?%bool_decide_eq_true]|].
    intros ?. f_equal. by apply bool_decide_eq_true.
  - apply Forall_forall. intros el _. rewrite selector_eq_text. by eexists.
Qed.

Lemma select_team (it : list record) :
  select it (team_query "Italy") =
  Ok (filter (λ el, el !! "home_team" = Some (VStr "Italy") ∨
                    el !! "away_team" = Some (VStr "Italy")) it).
Proof.
  change (select it (team_query "Italy")) with
    (select_loop (VStr "or")
       [(Eq, "home_team", VStr "Italy"); (Eq, "away_team", VStr "Italy")] it []).
  rewrite select_loop_returns.
  - f_equal. apply list_filter_iff. intros el. rewrite selector_or_team.
    split; [by intros [= ?%bool_decide_eq_true]|].
    intros ?. f_equal. by apply bool_decide_eq_true.
  - apply Forall_forall. intros el _. rewrite selector_or_team. by eexists.
Qed.

Lemma main_rows header rows :
  main (header :: rows) =
  Ok [PText "Italy games";
      match sum_goals
              (filter (world_cup_game "Italy")
                 (row_record (row_splitter header) <$> rows)) "Italy" with
      | Ok goals => PInt goals
      | Raise ex => PExn ex
      end].
Proof.
  unfold main. rewrite generate_games_rows, bind_Ok.
  rewrite select_tournament, bind_Ok, select_team, bind_Ok.
  rewrite list_filter_filter.
  assert (filter (λ el : record,
            (el !! "home_team" = Some (VStr "Italy") ∨
             el !! "away_team" = Some (VStr "Italy")) ∧
            el !! "tournament" = Some (VStr "FIFA World Cup"))
            (row_record (row_splitter header) <$> rows)
          = filter (world_cup_game "Italy")
              (row_record (row_splitter header) <$> rows)) as ->.
  { apply list_filter_iff. intros el. unfold world_cup_game. tauto. }
  by destruct (sum_goals _ _).
Qed.

(** X20: on a file without any line the script raises [IndexError] before
    it prints. On any other file it does not raise and prints two lines:
    the title, then the goals of Italy summed over the records of the World
    Cup in which Italy is the home or the away team, or the exception that
    sum raised. *)
Theorem main_prints :
  main [] = Raise IndexError ∧
  ∀ header rows,
    main (header :: rows) =
    Ok [PText "Italy games";
        match sum_goals
                (filter (world_cup_game "Italy")
                   (row_record (row_splitter header) <$> rows)) "Italy" with
        | Ok goals => PInt goals
        | Raise ex => PExn ex
        end].
Proof. split; [done|apply main_rows]. Qed.

(** X21: the only exceptions the script prints are those of [team_goals] on
    a record of the file: a missing [home_team], [home_score] or
    [away_score] field, or a score text that [int] refuses. The two
    selections never raise. *)
Theorem main_exceptions (csv_gen : list string) (out : list printed) (e : exn)
    (Hmain : main csv_gen = Ok out)
    (Hprinted : PExn e ∈ out) :
  (∃ k, e = KeyError k ∧ k ∈ ["home_team"; "home_score"; "away_score"]) ∨
  (∃ s, e = IntValueError s).
Proof.
  destruct csv_gen as [|header rows]; [done|].
  rewrite main_rows in Hmain. injection Hmain as <-.
  apply elem_of_cons in Hprinted as [?|Hprinted]; [done|].
  apply list_elem_of_singleton in Hprinted.
  destruct (sum_goals _ _) as [|e'] eqn:Hsum; [done|]. injection Hprinted as ->.
  rewrite sum_goals_collect in Hsum.
  destruct (collect _ _) as [|e''] eqn:Hc; simpl in Hsum; [done|].
  injection Hsum as ->.
  apply collect_raise_inv in Hc as (game & Hgame & Hraise).
  apply list_elem_of_filter in Hgame as [_ Hgame].
  apply list_elem_of_fmap in Hgame as (row & -> & _).
  pose proof (row_record_text (row_splitter header) row) as Htext.
  apply team_goals_raise_cases in Hraise
    as [[_ ->]|(home & _ & [[_ ->]|(score & Hscore & Hint)])].
  - left. exists "home_team". split; [done|by left].
  - left. eexists. split; [done|]. unfold score_field.
    destruct (Py.eq _ _); [by right; left|by right; right; left].
  - right. destruct (Htext _ _ Hscore) as [s ->]. simpl in Hint.
    destruct (Py.int_of_string s); [done|]. injection Hint as <-. by exists s.
Qed.

Lemma main_exceptions_witness :
  main ["home_team,away_team,home_score,away_score,tournament" +:+ nl;
        "Italy,France,two,1,FIFA World Cup" +:+ nl]
    = Ok [PText "Italy games"; PExn (IntValueError "two")] ∧
  ((∃ k, IntValueError "two" = KeyError k ∧
         k ∈ ["home_team"; "home_score"; "away_score"]) ∨
   (∃ s, IntValueError "two" = IntValueError s)).
Proof.
  split; [by vm_compute|].
  apply (main_exceptions
    ["home_team,away_team,home_score,away_score,tournament" +:+ nl;
     "Italy,France,two,1,FIFA World Cup" +:+ nl]
    [PText "Italy games"; PExn (IntValueError "two")]).
  - by vm_compute.
  - by right; left.
Defined.

(** X22: on a record the team query of the script keeps, [team_goals] reads
    the score of the side the team plays on: [home_score] when the team is
    the home team, and otherwise [away_score] with the team as the away
    team. *)
Theorem team_query_side (game : record) (team : string) (home : value)
    (Hkept : selector game (VStr "or")
               [(Eq, "home_team", VStr team); (Eq, "away_team", VStr team)]
             = Ok true)
    (Hhome : game !! "home_team" = Some home) :
  (home = VStr team ∧
   team_goals game team =
     (home_score ← Py.getitem game "home_score"; Py.int home_score)) ∨
  (home ≠ VStr team ∧ game !! "away_team" = Some (VStr team) ∧
   team_goals game team =
     (away_score ← Py.getitem game "away_score"; Py.int away_score)).
Proof.
  rewrite selector_or_team in Hkept. injection Hkept as Hkept.
  apply bool_decide_eq_true in Hkept.
  rewrite (team_goals_score _ _ _ Hhome). unfold score_field, Py.eq.
  destruct (decide (home = VStr team)) as [->|Hne].
  - left. by rewrite bool_decide_eq_true_2.
  - right. rewrite bool_decide_eq_false_2 by done.
    destruct Hkept as [?|?]; [congruence|done].
Qed.

Lemma team_query_side_witness :
  team_goals france_italy "Italy" = Ok 3.
Proof.
  destruct (team_query_side france_italy "Italy" (VStr "France") eq_refl eq_refl)
    as [[? _]|(_ & _ & ->)]; [done|reflexivity].
Defined.
